(** * Fraud-alert voice agent: the two workflow tools of [agent.py]

    A shallow embedding of [backend/src/agent.py]: the JSON case store
    ([load_db], [save_db]), the per-call session state ([Userdata]) and the
    two function tools [lookup_customer] and [resolve_fraud_case].

    Modelling conventions.
    - A Python [str] is a [string]; a character is a code point below 256
      (Latin-1), on which [str.lower] and [str.strip] act as tabulated in
      [lower_char] and [is_space].
    - The store file holds a JSON array of objects with string values.  An
      object is an [Item]: the seven keys the [FraudCase] constructor
      requires, and the two keys it defaults ([case_status], [notes]),
      which may be absent.  These are the objects that the
      [FraudCase] constructor accepts as keyword arguments.
    - A tool runs on a context [Ctx]: the session's [Userdata] and the
      disk.  The disk records the current content of the store file and the
      log of every payload handed to [save_db], newest first. *)

From Stdlib Require Import Ascii String NArith Bool.
From stdpp Require Import base list strings gmap.

(* ===================================================================== *)
(** ** Python string operations *)
(* ===================================================================== *)

Module PyStr.

(** [str.isspace] on a single code point below 256: the characters
    [str.strip] removes. *)
Definition is_space (c : ascii) : bool :=
  let n := N_of_ascii c in
  ((9 <=? n) && (n <=? 13) || (28 <=? n) && (n <=? 32)
   || (n =? 133) || (n =? 160))%N.

(** [str.lower] on a single code point below 256: A-Z and the Latin-1
    capitals (all of 192..222 but the multiplication sign 215) move up by
    32, everything else stays. *)
Definition lower_char (c : ascii) : ascii :=
  let n := N_of_ascii c in
  if ((65 <=? n) && (n <=? 90)
      || (192 <=? n) && (n <=? 222) && negb (n =? 215))%N
  then ascii_of_N (n + 32)
  else c.

Fixpoint lower (s : string) : string :=
  match s with
  | EmptyString => EmptyString
  | String c t => String (lower_char c) (lower t)
  end.

Fixpoint lstrip (s : string) : string :=
  match s with
  | EmptyString => EmptyString
  | String c t => if is_space c then lstrip t else s
  end.

Fixpoint rstrip (s : string) : string :=
  match s with
  | EmptyString => EmptyString
  | String c t =>
      match rstrip t with
      | EmptyString => if is_space c then EmptyString else String c EmptyString
      | t' => String c t'
      end
  end.

Definition strip (s : string) : string := rstrip (lstrip s).

(** [s.startswith(p)] *)
Fixpoint startswith (p s : string) : bool :=
  match p, s with
  | EmptyString, _ => true
  | String _ _, EmptyString => false
  | String a p', String b s' => Ascii.eqb a b && startswith p' s'
  end.

(** [p in s]: [p] occurs in [s] as a contiguous run. *)
Fixpoint py_in (p s : string) : bool :=
  startswith p s ||
  match s with
  | EmptyString => false
  | String _ s' => py_in p s'
  end.

(** The specification of [in]: some text before, the pattern, some text
    after. *)
Definition Substring (p s : string) : Prop :=
  exists before after, s = before +:+ p +:+ after.

End PyStr.

Import PyStr.

(* ===================================================================== *)
(** ** Data model *)
(* ===================================================================== *)

(** The [FraudCase] dataclass: nine string fields. *)
Record FraudCase := mkFraudCase {
  userName : string;
  securityIdentifier : string;
  cardEnding : string;
  transactionName : string;
  transactionAmount : string;
  transactionTime : string;
  transactionSource : string;
  case_status : string;
  notes : string
}.

(** A JSON object of the store file.  The two defaulted keys may be
    missing. *)
Record Item := mkItem {
  i_userName : string;
  i_securityIdentifier : string;
  i_cardEnding : string;
  i_transactionName : string;
  i_transactionAmount : string;
  i_transactionTime : string;
  i_transactionSource : string;
  i_case_status : option string;
  i_notes : option string
}.

(** The constructor call on an object's keys: absent keys take the
    dataclass defaults ["pending_review"] and the empty string. *)
Definition FraudCase_ctor (item : Item) : FraudCase :=
  {| userName := i_userName item;
     securityIdentifier := i_securityIdentifier item;
     cardEnding := i_cardEnding item;
     transactionName := i_transactionName item;
     transactionAmount := i_transactionAmount item;
     transactionTime := i_transactionTime item;
     transactionSource := i_transactionSource item;
     case_status := default "pending_review" (i_case_status item);
     notes := default "" (i_notes item) |}.

(** [dataclasses.asdict]: every field becomes a key. *)
Definition asdict (case : FraudCase) : Item :=
  {| i_userName := userName case;
     i_securityIdentifier := securityIdentifier case;
     i_cardEnding := cardEnding case;
     i_transactionName := transactionName case;
     i_transactionAmount := transactionAmount case;
     i_transactionTime := transactionTime case;
     i_transactionSource := transactionSource case;
     i_case_status := Some (case_status case);
     i_notes := Some (notes case) |}.

(** The status an object stands for, as the constructor reads it. *)
Definition item_status (item : Item) : string :=
  default "pending_review" (i_case_status item).

(** The session state: [active_case] is [None] until a lookup succeeds. *)
Record Userdata := mkUserdata { active_case : option FraudCase }.

Definition Userdata_init : Userdata := {| active_case := None |}.

(** The disk: the parsed content of [fraud_db.json] and the payloads of
    all [save_db] calls so far, newest first. *)
Record Disk := mkDisk {
  fraud_db : list Item;
  dumps : list (list Item)
}.

Record Ctx := mkCtx { userdata : Userdata; disk : Disk }.

Definition load_db (d : Disk) : list Item := fraud_db d.

Definition save_db (data : list Item) (d : Disk) : Disk :=
  {| fraud_db := data; dumps := data :: dumps d |}.

(* ===================================================================== *)
(** ** The tools *)
(* ===================================================================== *)

(** The generator condition of [lookup_customer], [name] already stripped
    and lowered. *)
Definition name_matches (name : string) (item : Item) : bool :=
  py_in (lower (i_userName item)) name || py_in name (lower (i_userName item)).

(** [next((item for item in data if cond), None)] *)
Fixpoint next (cond : Item -> bool) (data : list Item) : option Item :=
  match data with
  | [] => None
  | item :: rest => if cond item then Some item else next cond rest
  end.

Definition found_reply (found_record : Item) : string :=
  "FOUND|SecurityID=" +:+ i_securityIdentifier found_record +:+ "|" +:+
  "Amount=" +:+ i_transactionAmount found_record +:+ "|" +:+
  "Name=" +:+ i_transactionName found_record +:+ "|" +:+
  "Source=" +:+ i_transactionSource found_record +:+ "|" +:+
  "Time=" +:+ i_transactionTime found_record.

Definition lookup_customer (name : string) (ctx : Ctx) : string * Ctx :=
  let data := load_db (disk ctx) in
  let name := lower (strip name) in
  match next (name_matches name) data with
  | None => ("NO_MATCH", ctx)
  | Some found_record =>
      (found_reply found_record,
       {| userdata := {| active_case := Some (FraudCase_ctor found_record) |};
          disk := disk ctx |})
  end.

(** The two assignments [case.case_status = status; case.notes = notes]. *)
Definition set_resolution (case : FraudCase) (status notes' : string) : FraudCase :=
  {| userName := userName case;
     securityIdentifier := securityIdentifier case;
     cardEnding := cardEnding case;
     transactionName := transactionName case;
     transactionAmount := transactionAmount case;
     transactionTime := transactionTime case;
     transactionSource := transactionSource case;
     case_status := status;
     notes := notes' |}.

(** The [for i, item in enumerate(data)] loop: [rest] is what is left to
    visit, [i] the index of its head; the first hit assigns [data[i]] and
    breaks. *)
Fixpoint update_loop (case : FraudCase) (data : list Item) (i : nat)
    (rest : list Item) : list Item :=
  match rest with
  | [] => data
  | item :: rest' =>
      if String.eqb (i_userName item) (userName case)
      then <[i := asdict case]> data
      else update_loop case data (S i) rest'
  end.

Definition resolve_reply (case : FraudCase) (status : string) : string :=
  if String.eqb status "confirmed_fraud"
  then "UPDATED_FRAUD|Card " +:+ cardEnding case +:+ " has been blocked."
  else "UPDATED_SAFE|Transaction marked legitimate.".

Definition resolve_fraud_case (status notes' : string) (ctx : Ctx) : string * Ctx :=
  match active_case (userdata ctx) with
  | None => ("ERROR: No case loaded.", ctx)
  | Some case =>
      let case := set_resolution case status notes' in
      let data := load_db (disk ctx) in
      let data := update_loop case data 0 data in
      (resolve_reply case status,
       {| userdata := {| active_case := Some case |};
          disk := save_db data (disk ctx) |})
  end.

(* ===================================================================== *)
(** ** Notions used in the statements *)
(* ===================================================================== *)

(** Case-insensitive containment in either direction, between a query [q]
    (as given to the predicate) and a stored name. *)
Definition Related (q : string) (item : Item) : Prop :=
  Substring (lower (i_userName item)) (lower q) \/
  Substring (lower q) (lower (i_userName item)).

(** The loop of [resolve_fraud_case] seen as a function of the list: the
    first object carrying the name is replaced, the rest is kept. *)
Fixpoint replace_first (name : string) (new : Item) (l : list Item) : list Item :=
  match l with
  | [] => []
  | x :: t => if String.eqb (i_userName x) name then new :: t
              else x :: replace_first name new t
  end.

(** A reply that reports an update, as opposed to a refusal. *)
Definition is_update_reply (reply : string) : bool := startswith "UPDATED_" reply.

(** The precondition as the specification words it.  [verified] is the
    outcome of the dialogue layer's comparison of the spoken identifier with
    the stored one; [Userdata] has no field for it, so it travels next to
    the session. *)
Definition resolve_precondition (ud : Userdata) (verified : bool) : Prop :=
  is_Some (active_case ud) /\ verified = true.

(** Blank input: empty, or white space throughout. *)
Fixpoint all_space (s : string) : bool :=
  match s with
  | EmptyString => true
  | String c t => is_space c && all_space t
  end.

(** Index [i] holds the first object of [db] named [name]. *)
Definition first_hit (name : string) (db : list Item) (i : nat) : Prop :=
  (exists r, db !! i = Some r /\ i_userName r = name) /\
  (forall j x, j < i -> db !! j = Some x -> i_userName x <> name).

(** The fields outside the workflow's two. *)
Definition same_other_fields (a b : Item) : Prop :=
  i_userName a = i_userName b /\
  i_securityIdentifier a = i_securityIdentifier b /\
  i_cardEnding a = i_cardEnding b /\
  i_transactionName a = i_transactionName b /\
  i_transactionAmount a = i_transactionAmount b /\
  i_transactionTime a = i_transactionTime b /\
  i_transactionSource a = i_transactionSource b.

Definition allowed_status (s : string) : Prop :=
  s = "pending_review" \/ s = "confirmed_safe" \/ s = "confirmed_fraud".

Definition resolving_status (s : string) : Prop :=
  s = "confirmed_safe" \/ s = "confirmed_fraud".

(** The moves the specification allows a record's status to make. *)
Definition allowed_transition (old new : string) : Prop :=
  old = new \/ (old = "pending_review" /\ resolving_status new).

(* ===================================================================== *)
(** ** A sample store and sample sessions *)
(* ===================================================================== *)

Definition john : Item :=
  {| i_userName := "John"; i_securityIdentifier := "1234";
     i_cardEnding := "4242"; i_transactionName := "ABC Industry";
     i_transactionAmount := "$450.00"; i_transactionTime := "2:30 PM";
     i_transactionSource := "alibaba.com";
     i_case_status := Some "pending_review"; i_notes := Some "" |}.

Definition mary : Item :=
  {| i_userName := "Mary"; i_securityIdentifier := "7777";
     i_cardEnding := "9090"; i_transactionName := "Gadget Hub";
     i_transactionAmount := "$99.00"; i_transactionTime := "11:05 AM";
     i_transactionSource := "gadgethub.example";
     i_case_status := None; i_notes := None |}.

Definition sample_disk : Disk := {| fraud_db := [john; mary]; dumps := [] |}.

Definition sample_ctx : Ctx := {| userdata := Userdata_init; disk := sample_disk |}.

(** The session of a caller who gave the name john, and the same session
    once the store has lost the record. *)
Definition loaded_ctx : Ctx := snd (lookup_customer "john" sample_ctx).

Definition stale_ctx : Ctx :=
  {| userdata := userdata loaded_ctx;
     disk := {| fraud_db := [mary]; dumps := [] |} |}.

(** The store of a customer whose card was reissued after the lookup:
    the session still holds the old card ending. *)
Definition john_reissued : Item :=
  {| i_userName := "John"; i_securityIdentifier := "1234";
     i_cardEnding := "5151"; i_transactionName := "ABC Industry";
     i_transactionAmount := "$450.00"; i_transactionTime := "2:30 PM";
     i_transactionSource := "alibaba.com";
     i_case_status := Some "pending_review"; i_notes := Some "" |}.

Definition reissued_ctx : Ctx :=
  {| userdata := userdata loaded_ctx;
     disk := {| fraud_db := [john_reissued]; dumps := [] |} |}.

(** A store where the name of the session's case occurs three times. *)
Definition twins_ctx : Ctx :=
  {| userdata := userdata loaded_ctx;
     disk := {| fraud_db := [mary; john; john_reissued; john]; dumps := [] |} |}.

(** The session that has marked john's case safe. *)
Definition resolved_ctx : Ctx :=
  snd (resolve_fraud_case "confirmed_safe" "User confirmed." loaded_ctx).

(** A string that does not begin with white space. *)
Definition clean_start (s : string) : bool :=
  match s with
  | EmptyString => true
  | String c _ => negb (is_space c)
  end.

(* ===================================================================== *)
(** ** Sessions sharing the store *)
(* ===================================================================== *)

(** One invocation of a tool of [FraudAgent], whose tool list is
    [lookup_customer] and [resolve_fraud_case]. *)
Inductive Call :=
| Lookup (name : string)
| Resolve (status notes' : string).

Definition call_tool (c : Call) (ctx : Ctx) : string * Ctx :=
  match c with
  | Lookup name => lookup_customer name ctx
  | Resolve status notes' => resolve_fraud_case status notes' ctx
  end.

(** Several calls in progress over the one store file.  Each call has its
    own [Userdata], made by [entrypoint] with no active case; a session that
    has not run a tool yet is absent from the map. *)
Record World := mkWorld {
  sessions : gmap nat Userdata;
  shared : Disk
}.

Definition session_of (w : World) (sid : nat) : Userdata :=
  default Userdata_init (sessions w !! sid).

(** Session [sid] runs one tool to completion: neither tool awaits, so
    within a worker the calls of different sessions follow one another. *)
Definition step (sid : nat) (c : Call) (w : World) : string * World :=
  let r := call_tool c {| userdata := session_of w sid; disk := shared w |} in
  (fst r,
   {| sessions := <[sid := userdata (snd r)]> (sessions w);
      shared := disk (snd r) |}).

Fixpoint run (trace : list (nat * Call)) (w : World) : list string * World :=
  match trace with
  | [] => ([], w)
  | (sid, c) :: rest =>
      (fst (step sid c w) :: fst (run rest (snd (step sid c w))),
       snd (run rest (snd (step sid c w))))
  end.

Definition fresh_world (d : Disk) : World := {| sessions := ∅; shared := d |}.

(** The case [c] held by a session agrees with the store: the first object
    carrying its name has the same fields outside status and notes. *)
Definition agrees (c : FraudCase) (db : list Item) : Prop :=
  exists l1 r l2,
    db = l1 ++ r :: l2 /\
    (forall x, x ∈ l1 -> i_userName x <> userName c) /\
    same_other_fields (asdict c) r.

Definition sessions_agree (w : World) : Prop :=
  forall sid ud c,
    sessions w !! sid = Some ud -> active_case ud = Some c ->
    agrees c (fraud_db (shared w)).

(** The disk after a session holding case [c] has resolved it. *)
Definition resolved_disk (c : FraudCase) (status notes' : string) (d : Disk) : Disk :=
  disk (snd (resolve_fraud_case status notes'
               {| userdata := {| active_case := Some c |}; disk := d |})).

(** The number of replies that report an update. *)
Definition count_updates (replies : list string) : nat :=
  length (List.filter is_update_reply replies).

(** Two callers and the calls they make, in the order the worker runs
    them. *)
Definition sample_trace : list (nat * Call) :=
  [ (1, Lookup "john");
    (2, Lookup " Mary ");
    (2, Resolve "confirmed_fraud" "User denied transaction.");
    (3, Resolve "confirmed_safe" "User confirmed.");
    (1, Resolve "confirmed_safe" "User confirmed.") ].

(** Membership in a list written out: one goal per element. *)
Ltac each_item H :=
  repeat match type of H with
         | _ ∈ _ :: _ => apply elem_of_cons in H as [->|H]
         | _ ∈ [] => inversion H
         | ?x ∈ ?l => let l' := eval hnf in l in progress change (x ∈ l') in H
         end.

(* ===================================================================== *)
(** ** Sample runs *)
(* ===================================================================== *)

Example lower_John : lower "John Doe" = "john doe".
Proof. reflexivity. Qed.

Example strip_John : strip "  John Doe " = "John Doe".
Proof. reflexivity. Qed.

Example in_examples :
  py_in "john" "john doe" = true /\ py_in "" "" = true /\
  py_in " a" "ab" = false /\ py_in "hn d" "john doe" = true.
Proof. repeat split. Qed.

Example lookup_john :
  fst (lookup_customer " john " sample_ctx) =
  "FOUND|SecurityID=1234|Amount=$450.00|Name=ABC Industry|Source=alibaba.com|Time=2:30 PM".
Proof. reflexivity. Qed.

Example lookup_john_doe :
  active_case (userdata (snd (lookup_customer "John Doe" sample_ctx))) =
  Some (FraudCase_ctor john).
Proof. reflexivity. Qed.

Example lookup_nobody : lookup_customer "Zed" sample_ctx = ("NO_MATCH", sample_ctx).
Proof. reflexivity. Qed.

Example scenario_safe :
  let ctx1 := snd (lookup_customer "john" sample_ctx) in
  let r := resolve_fraud_case "confirmed_safe" "User confirmed." ctx1 in
  fst r = "UPDATED_SAFE|Transaction marked legitimate." /\
  item_status <$> fraud_db (disk (snd r)) = ["confirmed_safe"; "pending_review"].
Proof. split; reflexivity. Qed.

Example scenario_fraud :
  let ctx1 := snd (lookup_customer "mary" sample_ctx) in
  let r := resolve_fraud_case "confirmed_fraud" "User denied transaction." ctx1 in
  fst r = "UPDATED_FRAUD|Card 9090 has been blocked." /\
  item_status <$> fraud_db (disk (snd r)) = ["pending_review"; "confirmed_fraud"].
Proof. split; reflexivity. Qed.

(* ===================================================================== *)
(** ** Facts about the string operations *)
(* ===================================================================== *)

Section StringFacts.

Implicit Types p s t : string.

Lemma append_nil_l s : "" +:+ s = s.
Proof. reflexivity. Qed.

Lemma append_cons c s t : String c s +:+ t = String c (s +:+ t).
Proof. reflexivity. Qed.

Lemma append_eq_nil s t : s +:+ t = "" -> s = "" /\ t = "".
Proof. destruct s; [rewrite append_nil_l; auto | rewrite append_cons; discriminate]. Qed.

Lemma startswith_spec p s : startswith p s = true <-> exists t, s = p +:+ t.
Proof.
  revert s. induction p as [|a p IH]; intros s; simpl.
  - split; [intros _; exists s; reflexivity | reflexivity].
  - destruct s as [|b s].
    + split; [discriminate | intros [t Ht]; rewrite append_cons in Ht; discriminate].
    + rewrite andb_true_iff, Ascii.eqb_eq, IH. split.
      * intros [-> [t ->]]. exists t. reflexivity.
      * intros [t Ht]. rewrite append_cons in Ht. injection Ht as -> ->. eauto.
Qed.

Lemma py_in_nil_l s : py_in "" s = true.
Proof. destruct s; reflexivity. Qed.

(** The executable [in] decides the contiguous-run relation. *)
Lemma py_in_spec p s : py_in p s = true <-> Substring p s.
Proof.
  unfold Substring. induction s as [|c s IH]; simpl.
  - rewrite orb_false_r, startswith_spec. split.
    + intros [t Ht]. exists "", t. exact Ht.
    + intros (b & a & H). symmetry in H.
      apply append_eq_nil in H as [-> H]. apply append_eq_nil in H as [-> ->].
      exists "". reflexivity.
  - rewrite orb_true_iff, IH, startswith_spec. split.
    + intros [[t Ht] | (b & a & ->)].
      * exists "", t. exact Ht.
      * exists (String c b), a. reflexivity.
    + intros ([|c' b] & a & H).
      * left. exists a. exact H.
      * right. rewrite append_cons in H. injection H as -> ->. eauto.
Qed.

Lemma py_in_false p s : py_in p s = false <-> ~ Substring p s.
Proof. rewrite <- py_in_spec. destruct (py_in p s); split; congruence. Qed.

End StringFacts.

Lemma name_matches_spec (q : string) (item : Item) :
  name_matches (lower q) item = true <-> Related q item.
Proof.
  unfold name_matches, Related.
  rewrite orb_true_iff, !py_in_spec. reflexivity.
Qed.

Lemma name_matches_false (q : string) (item : Item) :
  name_matches (lower q) item = false <-> ~ Related q item.
Proof.
  rewrite <- name_matches_spec. destruct (name_matches (lower q) item); split; congruence.
Qed.

(* ===================================================================== *)
(** ** Facts about the two loops *)
(* ===================================================================== *)

Lemma next_first cond (l1 : list Item) r l2 :
  (forall x, x ∈ l1 -> cond x = false) -> cond r = true ->
  next cond (l1 ++ r :: l2) = Some r.
Proof.
  intros Hl1 Hr. induction l1 as [|x l1 IH]; simpl.
  - rewrite Hr. reflexivity.
  - rewrite (Hl1 x) by apply list_elem_of_here.
    apply IH. intros y Hy. apply Hl1. apply list_elem_of_further, Hy.
Qed.

Lemma next_none cond (data : list Item) :
  (forall x, x ∈ data -> cond x = false) -> next cond data = None.
Proof.
  intros H. induction data as [|x l IH]; simpl; [reflexivity|].
  rewrite (H x) by apply list_elem_of_here.
  apply IH. intros y Hy. apply H. apply list_elem_of_further, Hy.
Qed.

Lemma next_Some cond (data : list Item) r :
  next cond data = Some r ->
  exists l1 l2, data = l1 ++ r :: l2 /\ cond r = true /\
                forall x, x ∈ l1 -> cond x = false.
Proof.
  induction data as [|x l IH]; simpl; [discriminate|].
  destruct (cond x) eqn:Hx.
  - intros [= ->]. exists [], l. split; [reflexivity|]. split; [exact Hx|].
    intros y Hy. inversion Hy.
  - intros H. destruct (IH H) as (l1 & l2 & -> & Hr & Hl1).
    exists (x :: l1), l2. split; [reflexivity|]. split; [exact Hr|].
    intros y Hy. apply elem_of_cons in Hy as [->|Hy]; auto.
Qed.

Lemma update_loop_from case (pre rest : list Item) :
  update_loop case (pre ++ rest) (length pre) rest =
  pre ++ replace_first (userName case) (asdict case) rest.
Proof.
  revert pre. induction rest as [|x rest IH]; intros pre; simpl.
  - reflexivity.
  - destruct (String.eqb (i_userName x) (userName case)).
    + rewrite <- (Nat.add_0_r (length pre)), insert_app_r. reflexivity.
    + rewrite (cons_middle x pre rest), app_assoc.
      replace (S (length pre)) with (length (pre ++ [x]))
        by (rewrite length_app; simpl; lia).
      rewrite IH, <- app_assoc. reflexivity.
Qed.

Lemma update_loop_replace case (data : list Item) :
  update_loop case data 0 data =
  replace_first (userName case) (asdict case) data.
Proof. exact (update_loop_from case [] data). Qed.

Lemma replace_first_absent name new (l : list Item) :
  (forall x, x ∈ l -> i_userName x <> name) -> replace_first name new l = l.
Proof.
  intros H. induction l as [|x l IH]; simpl; [reflexivity|].
  destruct (String.eqb_spec (i_userName x) name) as [E|_].
  - exfalso. exact (H x (list_elem_of_here _ _) E).
  - f_equal. apply IH. intros y Hy. apply H, list_elem_of_further, Hy.
Qed.

Lemma replace_first_hit name new (l1 : list Item) r l2 :
  (forall x, x ∈ l1 -> i_userName x <> name) -> i_userName r = name ->
  replace_first name new (l1 ++ r :: l2) = l1 ++ new :: l2.
Proof.
  intros H Hr. induction l1 as [|x l1 IH]; simpl.
  - rewrite Hr, String.eqb_refl. reflexivity.
  - destruct (String.eqb_spec (i_userName x) name) as [E|_].
    + exfalso. exact (H x (list_elem_of_here _ _) E).
    + f_equal. apply IH. intros y Hy. apply H, list_elem_of_further, Hy.
Qed.

Lemma replace_first_twice name new1 new2 (l : list Item) :
  i_userName new1 = name ->
  replace_first name new2 (replace_first name new1 l) = replace_first name new2 l.
Proof.
  intros Hn. induction l as [|x l IH]; simpl; [reflexivity|].
  destruct (String.eqb (i_userName x) name) eqn:E; simpl.
  - rewrite Hn, String.eqb_refl. reflexivity.
  - rewrite E, IH. reflexivity.
Qed.

Lemma replace_first_length name new (l : list Item) :
  length (replace_first name new l) = length l.
Proof.
  induction l as [|x l IH]; simpl; [reflexivity|].
  destruct (String.eqb (i_userName x) name); simpl; congruence.
Qed.

(* ===================================================================== *)
(** ** What a call to [resolve_fraud_case] does *)
(* ===================================================================== *)

Lemma resolve_reply_is_update case status :
  is_update_reply (resolve_reply case status) = true.
Proof. unfold resolve_reply. destruct (String.eqb status "confirmed_fraud"); reflexivity. Qed.

(** With a case loaded the call always goes through: one [save_db], whose
    payload is the re-read collection with the first object of that name
    replaced by the session's case. *)
Lemma resolve_with_active_case status notes' ctx case :
  active_case (userdata ctx) = Some case ->
  resolve_fraud_case status notes' ctx =
  (resolve_reply (set_resolution case status notes') status,
   {| userdata := {| active_case := Some (set_resolution case status notes') |};
      disk := save_db (replace_first (userName case)
                         (asdict (set_resolution case status notes'))
                         (fraud_db (disk ctx))) (disk ctx) |}).
Proof.
  intros H. unfold resolve_fraud_case. rewrite H.
  unfold load_db. rewrite update_loop_replace. reflexivity.
Qed.

(** C1, as stated, fails: the call refuses exactly when no case is loaded
    and never looks at a verification outcome.  A session with a loaded case
    that was not verified gets its update written. *)
Lemma resolve_unverified_counterexample :
  ~ (forall (verified : bool) (status notes' : string) (ctx : Ctx),
       ~ resolve_precondition (userdata ctx) verified ->
       fst (resolve_fraud_case status notes' ctx) = "ERROR: No case loaded." /\
       disk (snd (resolve_fraud_case status notes' ctx)) = disk ctx).
Proof.
  intros H.
  destruct (H false "confirmed_safe" "User confirmed." loaded_ctx) as [Hreply _].
  - intros [_ Hv]. discriminate Hv.
  - vm_compute in Hreply. discriminate Hreply.
Qed.

(** C1 (amended): the precondition of [resolve_fraud_case] is that an active
    case is set.  In every session without one, the call returns the
    no-case-loaded error and leaves session and disk as they were: the
    store content is unchanged and no [save_db] is logged. *)
Theorem resolve_without_active_case (status notes' : string) (ctx : Ctx) :
  active_case (userdata ctx) = None ->
  fst (resolve_fraud_case status notes' ctx) = "ERROR: No case loaded." /\
  snd (resolve_fraud_case status notes' ctx) = ctx /\
  fraud_db (disk (snd (resolve_fraud_case status notes' ctx))) = fraud_db (disk ctx) /\
  dumps (disk (snd (resolve_fraud_case status notes' ctx))) = dumps (disk ctx).
Proof.
  intros H. unfold resolve_fraud_case. rewrite H. simpl. auto.
Qed.

Lemma resolve_without_active_case_witness :
  active_case (userdata sample_ctx) = None /\
  fst (resolve_fraud_case "confirmed_fraud" "User denied transaction." sample_ctx)
  = "ERROR: No case loaded.".
Proof.
  split; [reflexivity|].
  apply (resolve_without_active_case "confirmed_fraud" "User denied transaction."
           sample_ctx).
  reflexivity.
Defined.

(** A call made before any lookup has succeeded is such a session. *)
Lemma lookup_no_match_keeps_ctx name ctx :
  fst (lookup_customer name ctx) = "NO_MATCH" -> snd (lookup_customer name ctx) = ctx.
Proof.
  unfold lookup_customer.
  destruct (next _ _); simpl; [|reflexivity].
  unfold found_reply. rewrite append_cons. discriminate.
Qed.

Lemma resolve_before_lookup name status notes' d :
  let ctx := {| userdata := Userdata_init; disk := d |} in
  fst (lookup_customer name ctx) = "NO_MATCH" ->
  resolve_fraud_case status notes' (snd (lookup_customer name ctx)) =
  ("ERROR: No case loaded.", ctx).
Proof.
  intros ctx Hno. rewrite (lookup_no_match_keeps_ctx name ctx Hno). reflexivity.
Qed.

(** C2, as stated, fails: nothing records that the session has resolved its
    case, so a second call is served like the first, with an update reply
    and one more [save_db]. *)
Lemma second_resolve_counterexample :
  ~ (forall (status notes' : string) (ctx : Ctx),
       is_Some (active_case (userdata ctx)) ->
       let ctx1 := snd (resolve_fraud_case status notes' ctx) in
       let r2 := resolve_fraud_case status notes' ctx1 in
       is_update_reply (fst r2) = false /\ disk (snd r2) = disk ctx1).
Proof.
  intros H.
  destruct (H "confirmed_safe" "User confirmed." loaded_ctx) as [Hreply _].
  - eexists. reflexivity.
  - vm_compute in Hreply. discriminate Hreply.
Qed.

(** C2 (amended): in a session with an active case, a second
    [resolve_fraud_case] is served like a first one.  It returns the update
    reply of its own status, and it performs a second store write, so two
    sequential calls log two writes.  The store content and the session
    after the second call are those a single call with the second call's
    arguments would have left; repeating the same arguments therefore
    rewrites the same content. *)
Theorem resolve_twice (s1 n1 s2 n2 : string) (ctx : Ctx) (case : FraudCase) :
  active_case (userdata ctx) = Some case ->
  let r1 := resolve_fraud_case s1 n1 ctx in
  let r2 := resolve_fraud_case s2 n2 (snd r1) in
  let once := resolve_fraud_case s2 n2 ctx in
  fst r2 = fst once /\
  is_update_reply (fst r2) = true /\
  dumps (disk (snd r2)) =
    fraud_db (disk (snd r2)) :: fraud_db (disk (snd r1)) :: dumps (disk ctx) /\
  fraud_db (disk (snd r2)) = fraud_db (disk (snd once)) /\
  userdata (snd r2) = userdata (snd once).
Proof.
  intros H r1 r2 once. subst r1 r2 once.
  rewrite (resolve_with_active_case s1 n1 ctx case H). cbn [snd].
  rewrite (resolve_with_active_case s2 n2 ctx case H).
  match goal with
  | |- context [resolve_fraud_case s2 n2 ?c] =>
      rewrite (resolve_with_active_case s2 n2 c (set_resolution case s1 n1))
        by reflexivity
  end.
  cbn [fst snd userdata disk fraud_db dumps save_db].
  change (set_resolution (set_resolution case s1 n1) s2 n2)
    with (set_resolution case s2 n2).
  change (userName (set_resolution case s1 n1)) with (userName case).
  rewrite replace_first_twice by reflexivity.
  repeat split. apply resolve_reply_is_update.
Qed.

Lemma resolve_twice_witness :
  active_case (userdata loaded_ctx) = Some (FraudCase_ctor john) /\
  let r1 := resolve_fraud_case "confirmed_safe" "User confirmed." loaded_ctx in
  let r2 := resolve_fraud_case "confirmed_safe" "User confirmed." (snd r1) in
  let once := resolve_fraud_case "confirmed_safe" "User confirmed." loaded_ctx in
  fst r2 = fst once /\
  is_update_reply (fst r2) = true /\
  dumps (disk (snd r2)) =
    fraud_db (disk (snd r2)) :: fraud_db (disk (snd r1)) :: dumps (disk loaded_ctx) /\
  fraud_db (disk (snd r2)) = fraud_db (disk (snd once)) /\
  userdata (snd r2) = userdata (snd once).
Proof.
  split; [reflexivity|].
  apply (resolve_twice "confirmed_safe" "User confirmed."
           "confirmed_safe" "User confirmed." loaded_ctx (FraudCase_ctor john)).
  reflexivity.
Defined.

(** C3, as stated, fails: when no object carries the active case's name the
    loop runs out without a hit, and the call goes on to [save_db] and to an
    update reply. *)
Lemma stale_case_counterexample :
  ~ (forall (status notes' : string) (ctx : Ctx) (case : FraudCase),
       active_case (userdata ctx) = Some case ->
       (forall item, item ∈ fraud_db (disk ctx) -> i_userName item <> userName case) ->
       let r := resolve_fraud_case status notes' ctx in
       is_update_reply (fst r) = false /\ dumps (disk (snd r)) = dumps (disk ctx)).
Proof.
  intros H.
  destruct (H "confirmed_safe" "User confirmed." stale_ctx (FraudCase_ctor john))
    as [Hreply _].
  - reflexivity.
  - intros item Hitem. each_item Hitem. discriminate.
  - vm_compute in Hreply. discriminate Hreply.
Qed.

(** C3 (amended): for a session with an active case whose [userName] no
    object of the store carries at resolve time, [resolve_fraud_case] does
    not fail.  It returns the update reply of its status, writes the store
    once with the collection exactly as read, and the session keeps its
    active case, now holding the status and notes of the call. *)
Theorem resolve_stale_case (status notes' : string) (ctx : Ctx) (case : FraudCase) :
  active_case (userdata ctx) = Some case ->
  (forall item, item ∈ fraud_db (disk ctx) -> i_userName item <> userName case) ->
  let r := resolve_fraud_case status notes' ctx in
  fst r = resolve_reply case status /\
  is_update_reply (fst r) = true /\
  fraud_db (disk (snd r)) = fraud_db (disk ctx) /\
  dumps (disk (snd r)) = fraud_db (disk ctx) :: dumps (disk ctx) /\
  active_case (userdata (snd r)) = Some (set_resolution case status notes').
Proof.
  intros H Habs r. subst r.
  rewrite (resolve_with_active_case status notes' ctx case H). simpl.
  rewrite replace_first_absent by exact Habs.
  repeat split. apply resolve_reply_is_update.
Qed.

Lemma resolve_stale_case_witness :
  let r := resolve_fraud_case "confirmed_fraud" "User denied transaction." stale_ctx in
  fst r = resolve_reply (FraudCase_ctor john) "confirmed_fraud" /\
  is_update_reply (fst r) = true /\
  fraud_db (disk (snd r)) = fraud_db (disk stale_ctx) /\
  dumps (disk (snd r)) = fraud_db (disk stale_ctx) :: dumps (disk stale_ctx) /\
  active_case (userdata (snd r)) =
    Some (set_resolution (FraudCase_ctor john) "confirmed_fraud"
            "User denied transaction.").
Proof.
  apply (resolve_stale_case "confirmed_fraud" "User denied transaction."
           stale_ctx (FraudCase_ctor john)).
  - reflexivity.
  - intros item Hitem. each_item Hitem. discriminate.
Defined.

(* ===================================================================== *)
(** ** What a call to [lookup_customer] does *)
(* ===================================================================== *)

Lemma lookup_customer_found name ctx (l1 : list Item) r l2 :
  fraud_db (disk ctx) = l1 ++ r :: l2 ->
  (forall x, x ∈ l1 -> ~ Related (strip name) x) ->
  Related (strip name) r ->
  lookup_customer name ctx =
  (found_reply r,
   {| userdata := {| active_case := Some (FraudCase_ctor r) |}; disk := disk ctx |}).
Proof.
  intros Hdb Hl1 Hr. unfold lookup_customer, load_db. rewrite Hdb.
  rewrite (next_first _ l1 r l2); [reflexivity | | ].
  - intros x Hx. apply name_matches_false, Hl1, Hx.
  - apply name_matches_spec, Hr.
Qed.

Lemma lookup_customer_no_match name ctx :
  (forall x, x ∈ fraud_db (disk ctx) -> ~ Related (strip name) x) ->
  lookup_customer name ctx = ("NO_MATCH", ctx).
Proof.
  intros H. unfold lookup_customer, load_db.
  rewrite next_none; [reflexivity|].
  intros x Hx. apply name_matches_false, H, Hx.
Qed.

(** C4, as stated, fails: the query is stripped of surrounding whitespace
    before it is compared.  A single blank is contained in no stored name of
    the sample store and contains none, yet the lookup answers with the
    first record. *)
Lemma lookup_unstripped_counterexample :
  ~ (forall (name : string) (ctx : Ctx),
       (forall (l1 : list Item) r l2,
           fraud_db (disk ctx) = l1 ++ r :: l2 ->
           (forall x, x ∈ l1 -> ~ Related name x) -> Related name r ->
           fst (lookup_customer name ctx) = found_reply r) /\
       ((forall x, x ∈ fraud_db (disk ctx) -> ~ Related name x) ->
        fst (lookup_customer name ctx) = "NO_MATCH")).
Proof.
  intros H. destruct (H " " sample_ctx) as [_ Hno].
  assert (Hreply : fst (lookup_customer " " sample_ctx) = "NO_MATCH").
  { apply Hno. intros x Hx. apply name_matches_false.
    each_item Hx; reflexivity. }
  vm_compute in Hreply. discriminate Hreply.
Qed.

(** C4 (amended): [lookup_customer] strips the query of surrounding
    whitespace and then matches by case-insensitive containment in either
    direction.  With Q the stripped query: the lookup returns the first
    record in store order whose lowercased name contains lowercased Q or is
    contained in it, and makes it the active case; when no stored name
    stands in that relation to Q it returns NO_MATCH and leaves the session
    as it was. *)
Theorem lookup_customer_matching (name : string) (ctx : Ctx) :
  (forall (l1 : list Item) r l2,
      fraud_db (disk ctx) = l1 ++ r :: l2 ->
      (forall x, x ∈ l1 -> ~ Related (strip name) x) ->
      Related (strip name) r ->
      lookup_customer name ctx =
      (found_reply r,
       {| userdata := {| active_case := Some (FraudCase_ctor r) |};
          disk := disk ctx |})) /\
  ((forall x, x ∈ fraud_db (disk ctx) -> ~ Related (strip name) x) ->
   lookup_customer name ctx = ("NO_MATCH", ctx)).
Proof.
  split.
  - intros l1 r l2. apply lookup_customer_found.
  - apply lookup_customer_no_match.
Qed.

Lemma lookup_customer_matching_witness :
  lookup_customer " Mary Ann" sample_ctx =
  (found_reply mary,
   {| userdata := {| active_case := Some (FraudCase_ctor mary) |};
      disk := disk sample_ctx |}) /\
  lookup_customer "Zed" sample_ctx = ("NO_MATCH", sample_ctx).
Proof.
  split.
  - apply (proj1 (lookup_customer_matching " Mary Ann" sample_ctx) [john] mary []).
    + reflexivity.
    + intros x Hx. each_item Hx. apply name_matches_false. reflexivity.
    + apply name_matches_spec. reflexivity.
  - apply (proj2 (lookup_customer_matching "Zed" sample_ctx)).
    intros x Hx. apply name_matches_false.
    each_item Hx; reflexivity.
Defined.

(** C7: whatever the query, [lookup_customer] leaves the disk alone (same
    store content, no [save_db]) and answers in one of two ways: NO_MATCH,
    with the session untouched, or a FOUND reply that carries the security
    identifier and the transaction amount, name, source and time of a
    stored record matching the query, which becomes the session's active
    case as built by the [FraudCase] constructor. *)
Theorem lookup_customer_outcomes (name : string) (ctx : Ctx) :
  let r := lookup_customer name ctx in
  disk (snd r) = disk ctx /\
  (r = ("NO_MATCH", ctx) \/
   exists found,
     found ∈ fraud_db (disk ctx) /\
     Related (strip name) found /\
     fst r = "FOUND|SecurityID=" +:+ i_securityIdentifier found +:+
             "|Amount=" +:+ i_transactionAmount found +:+
             "|Name=" +:+ i_transactionName found +:+
             "|Source=" +:+ i_transactionSource found +:+
             "|Time=" +:+ i_transactionTime found /\
     active_case (userdata (snd r)) = Some (FraudCase_ctor found) /\
     userName (FraudCase_ctor found) = i_userName found /\
     securityIdentifier (FraudCase_ctor found) = i_securityIdentifier found /\
     cardEnding (FraudCase_ctor found) = i_cardEnding found).
Proof.
  unfold lookup_customer, load_db.
  destruct (next _ _) as [found|] eqn:Hnext; simpl.
  - split; [reflexivity|]. right. exists found.
    apply next_Some in Hnext as (l1 & l2 & Hdb & Hm & _).
    split; [rewrite Hdb; apply elem_of_app; right; apply list_elem_of_here|].
    split; [apply name_matches_spec, Hm|].
    repeat split.
  - split; [reflexivity|]. left. reflexivity.
Qed.

Lemma lower_eq_nil s : lower s = "" <-> s = "".
Proof. destruct s; simpl; split; congruence. Qed.

Lemma rstrip_eq_nil s : rstrip s = "" <-> all_space s = true.
Proof.
  induction s as [|c s IH]; simpl; [tauto|].
  rewrite andb_true_iff, <- IH.
  destruct (rstrip s), (is_space c); split; intros H;
    try discriminate; try tauto; destruct H; discriminate.
Qed.

Lemma strip_eq_nil s : strip s = "" <-> all_space s = true.
Proof.
  unfold strip. induction s as [|c s IH]; simpl; [tauto|].
  destruct (is_space c) eqn:Hc; simpl; [exact IH|].
  split; [|discriminate].
  destruct (rstrip s); [rewrite Hc|]; discriminate.
Qed.

(** Nothing is contained in every name: the first object always passes the
    generator condition of an empty query. *)
Lemma next_blank (first : Item) (others : list Item) :
  next (name_matches "") (first :: others) = Some first.
Proof.
  simpl. unfold name_matches. rewrite py_in_nil_l, orb_true_r. reflexivity.
Qed.

(** The same for input given as blank: empty, or white space only. *)
Lemma lookup_all_space name ctx first others :
  fraud_db (disk ctx) = first :: others ->
  all_space name = true ->
  fst (lookup_customer name ctx) = found_reply first.
Proof.
  intros Hdb Hsp. unfold lookup_customer, load_db.
  apply strip_eq_nil in Hsp. rewrite Hdb, Hsp. simpl lower.
  rewrite next_blank. reflexivity.
Qed.

(** C9: on a store with at least one record, a query whose stripped and
    lowercased form is empty is answered FOUND with the first record in
    store order, which becomes the active case. *)
Theorem lookup_blank_name (name : string) (ctx : Ctx) (first : Item)
    (others : list Item) :
  fraud_db (disk ctx) = first :: others ->
  lower (strip name) = "" ->
  lookup_customer name ctx =
  (found_reply first,
   {| userdata := {| active_case := Some (FraudCase_ctor first) |};
      disk := disk ctx |}).
Proof.
  intros Hdb Hblank. unfold lookup_customer, load_db.
  rewrite Hdb, Hblank, next_blank. reflexivity.
Qed.

Lemma lookup_blank_name_witness :
  fraud_db (disk sample_ctx) = john :: [mary] /\
  lower (strip "   ") = "" /\
  lookup_customer "   " sample_ctx =
  (found_reply john,
   {| userdata := {| active_case := Some (FraudCase_ctor john) |};
      disk := disk sample_ctx |}).
Proof.
  split; [reflexivity|]. split; [reflexivity|].
  apply (lookup_blank_name "   " sample_ctx john [mary]); reflexivity.
Defined.

(* ===================================================================== *)
(** ** Which records a resolution touches *)
(* ===================================================================== *)

Lemma first_hit_tail name x (t : list Item) i :
  i_userName x <> name -> first_hit name t i -> first_hit name (x :: t) (S i).
Proof.
  intros Hx [Hr Hbefore]. split; [exact Hr|].
  intros [|j] y Hj; simpl; [intros [= <-]; exact Hx|].
  apply Hbefore. lia.
Qed.

Lemma replace_first_lookup_hit name new (l : list Item) i :
  first_hit name l i -> replace_first name new l !! i = Some new.
Proof.
  revert i. induction l as [|x t IH]; intros i [(r & Hr & Hn) Hbefore].
  - destruct i; discriminate Hr.
  - simpl. destruct (String.eqb_spec (i_userName x) name) as [E|NE].
    + destruct i as [|i]; [reflexivity|].
      exfalso. apply (Hbefore 0 x); [lia | reflexivity | exact E].
    + destruct i as [|i].
      * simpl in Hr. injection Hr as ->. contradiction.
      * simpl. apply IH. split; [exists r; auto|].
        intros j y Hj Hy. apply (Hbefore (S j) y); [lia | exact Hy].
Qed.

Lemma replace_first_lookup_other name new (l : list Item) i :
  ~ first_hit name l i -> replace_first name new l !! i = l !! i.
Proof.
  revert i. induction l as [|x t IH]; intros i Hnot; [reflexivity|].
  simpl. destruct (String.eqb_spec (i_userName x) name) as [E|NE].
  - destruct i as [|i]; [|reflexivity].
    exfalso. apply Hnot. split; [exists x; auto|]. intros j y Hj. lia.
  - destruct i as [|i]; [reflexivity|].
    simpl. apply IH. intros Hhit. apply Hnot, first_hit_tail; assumption.
Qed.

Lemma replace_first_lookup_cases name new (l : list Item) i r r' :
  l !! i = Some r -> replace_first name new l !! i = Some r' -> r' = r \/ r' = new.
Proof.
  revert i. induction l as [|x t IH]; intros i; [discriminate|].
  simpl. destruct (String.eqb (i_userName x) name).
  - destruct i as [|i]; simpl.
    + intros _ [= <-]. right. reflexivity.
    + intros -> [= <-]. left. reflexivity.
  - destruct i as [|i]; simpl.
    + intros [= <-] [= <-]. left. reflexivity.
    + apply IH.
Qed.

Lemma replace_first_elem name new (l : list Item) x :
  x ∈ replace_first name new l -> x = new \/ x ∈ l.
Proof.
  induction l as [|y t IH]; simpl; [intros H; inversion H|].
  destruct (String.eqb (i_userName y) name); intros H;
    apply elem_of_cons in H as [->|H].
  - left. reflexivity.
  - right. apply list_elem_of_further, H.
  - right. apply list_elem_of_here.
  - destruct (IH H) as [->|Hx]; [left; reflexivity|].
    right. apply list_elem_of_further, Hx.
Qed.

(** C5, as stated, fails: the store is re-read, but the record found is
    replaced by the whole of the session's case.  A card ending changed in
    the store since the lookup is put back to the value the session holds. *)
Lemma resolve_overwrites_counterexample :
  ~ (forall (status notes' : string) (ctx : Ctx) (i : nat) (r r' : Item),
       is_Some (active_case (userdata ctx)) ->
       fraud_db (disk ctx) !! i = Some r ->
       fraud_db (disk (snd (resolve_fraud_case status notes' ctx))) !! i = Some r' ->
       same_other_fields r' r).
Proof.
  intros H.
  assert (Hsame : same_other_fields (asdict (set_resolution (FraudCase_ctor john)
                    "confirmed_safe" "User confirmed.")) john_reissued).
  { apply (H "confirmed_safe" "User confirmed." reissued_ctx 0).
    - eexists. reflexivity.
    - reflexivity.
    - reflexivity. }
  destruct Hsame as (_ & _ & Hcard & _). discriminate Hcard.
Qed.

(** C5 (amended): a successful [resolve_fraud_case] re-reads the store and
    replaces the first record whose [userName] equals the active case's by
    the session's case carrying the new status and notes.  Every other
    record is unchanged in every field, and the collection keeps its
    length.  The replaced record keeps its [userName]; its fields other
    than status and notes are those of the session's case, hence unchanged
    when the session's case agrees with the stored record on them. *)
Theorem resolve_frame (status notes' : string) (ctx : Ctx) (case : FraudCase) :
  active_case (userdata ctx) = Some case ->
  let db := fraud_db (disk ctx) in
  let db' := fraud_db (disk (snd (resolve_fraud_case status notes' ctx))) in
  let new := asdict (set_resolution case status notes') in
  length db' = length db /\
  (forall i, ~ first_hit (userName case) db i -> db' !! i = db !! i) /\
  (forall i r, first_hit (userName case) db i -> db !! i = Some r ->
     db' !! i = Some new /\
     i_userName new = i_userName r /\
     same_other_fields new (asdict case) /\
     (same_other_fields (asdict case) r -> same_other_fields new r)).
Proof.
  intros H db db' new. subst db db' new.
  rewrite (resolve_with_active_case status notes' ctx case H). simpl.
  split; [apply replace_first_length|].
  split; [intros i; apply replace_first_lookup_other|].
  intros i r Hhit Hr.
  split; [apply replace_first_lookup_hit, Hhit|].
  split.
  - destruct Hhit as [(r0 & Hr0 & Hn) _]. congruence.
  - split; [repeat split | intros Hs; exact Hs].
Qed.

Lemma resolve_frame_witness :
  active_case (userdata loaded_ctx) = Some (FraudCase_ctor john) /\
  let db := fraud_db (disk loaded_ctx) in
  let db' := fraud_db (disk (snd (resolve_fraud_case "confirmed_safe"
                                    "User confirmed." loaded_ctx))) in
  let new := asdict (set_resolution (FraudCase_ctor john) "confirmed_safe"
                       "User confirmed.") in
  length db' = length db /\
  (forall i, ~ first_hit "John" db i -> db' !! i = db !! i) /\
  (forall i r, first_hit "John" db i -> db !! i = Some r ->
     db' !! i = Some new /\
     i_userName new = i_userName r /\
     same_other_fields new (asdict (FraudCase_ctor john)) /\
     (same_other_fields (asdict (FraudCase_ctor john)) r -> same_other_fields new r)).
Proof.
  split; [reflexivity|].
  apply (resolve_frame "confirmed_safe" "User confirmed." loaded_ctx
           (FraudCase_ctor john)).
  reflexivity.
Defined.

(** When nothing else touched the store between the two calls of a
    session, the case held by the session agrees with the record it
    replaces, so a lookup followed by a resolution changes no field outside
    status and notes. *)
Lemma name_matches_same_name q (a b : Item) :
  i_userName a = i_userName b -> name_matches q a = name_matches q b.
Proof. unfold name_matches. intros ->. reflexivity. Qed.

Lemma same_other_fields_all (l : list Item) : Forall2 same_other_fields l l.
Proof. induction l; constructor; [repeat split | assumption]. Qed.

Lemma lookup_then_resolve_frame name status notes' ctx :
  fst (lookup_customer name ctx) <> "NO_MATCH" ->
  Forall2 same_other_fields
    (fraud_db (disk (snd (resolve_fraud_case status notes'
                            (snd (lookup_customer name ctx))))))
    (fraud_db (disk ctx)).
Proof.
  unfold lookup_customer, load_db.
  destruct (next _ _) as [found|] eqn:Hnext; cbn [fst snd];
    [intros _ | intros Hno; exfalso; apply Hno; reflexivity].
  apply next_Some in Hnext as (l1 & l2 & Hdb & Hfound & Hl1).
  erewrite resolve_with_active_case by reflexivity.
  cbn [fst snd disk fraud_db save_db userName FraudCase_ctor].
  rewrite Hdb, replace_first_hit; [| | reflexivity].
  - apply Forall2_app; [apply same_other_fields_all|].
    constructor; [repeat split | apply same_other_fields_all].
  - intros x Hx E. apply Hl1 in Hx.
    rewrite (name_matches_same_name _ x found E) in Hx. congruence.
Qed.

(** C10: with several records of the same [userName], a successful
    [resolve_fraud_case] replaces the first record in store order whose
    [userName] equals the active case's, and leaves all records after it,
    those of the same name included, as they were. *)
Theorem resolve_updates_first_match (status notes' : string) (ctx : Ctx)
    (case : FraudCase) (l1 : list Item) (r : Item) (l2 : list Item) :
  active_case (userdata ctx) = Some case ->
  fraud_db (disk ctx) = l1 ++ r :: l2 ->
  (forall x, x ∈ l1 -> i_userName x <> userName case) ->
  i_userName r = userName case ->
  fraud_db (disk (snd (resolve_fraud_case status notes' ctx))) =
  l1 ++ asdict (set_resolution case status notes') :: l2.
Proof.
  intros H Hdb Hl1 Hr.
  rewrite (resolve_with_active_case status notes' ctx case H). simpl.
  rewrite Hdb. apply replace_first_hit; assumption.
Qed.

Lemma resolve_updates_first_match_witness :
  fraud_db (disk (snd (resolve_fraud_case "confirmed_fraud"
                         "User denied transaction." twins_ctx))) =
  [mary] ++ asdict (set_resolution (FraudCase_ctor john) "confirmed_fraud"
                      "User denied transaction.") :: [john_reissued; john].
Proof.
  apply (resolve_updates_first_match "confirmed_fraud" "User denied transaction."
           twins_ctx (FraudCase_ctor john) [mary] john [john_reissued; john]).
  - reflexivity.
  - reflexivity.
  - intros x Hx. each_item Hx. discriminate.
  - reflexivity.
Defined.

(* ===================================================================== *)
(** ** The status of a stored case *)
(* ===================================================================== *)

(** C6, as stated, fails twice.  The status argument is stored as given, so
    a call with another word takes a record out of the three values; and
    the record's current status is never read, so a case marked safe is
    marked fraudulent by the next call. *)
Lemma status_transition_counterexample :
  ~ (forall (status notes' : string) (ctx : Ctx),
       (forall x, x ∈ fraud_db (disk ctx) -> allowed_status (item_status x)) ->
       forall x, x ∈ fraud_db (disk (snd (resolve_fraud_case status notes' ctx))) ->
                 allowed_status (item_status x)) /\
  ~ (forall (status notes' : string) (ctx : Ctx) (i : nat) (r r' : Item),
       resolving_status status ->
       fraud_db (disk ctx) !! i = Some r ->
       fraud_db (disk (snd (resolve_fraud_case status notes' ctx))) !! i = Some r' ->
       allowed_transition (item_status r) (item_status r')).
Proof.
  split.
  - intros H.
    assert (Hbad : allowed_status "escalated").
    { apply (H "escalated" "Caller unsure." loaded_ctx)
        with (x := asdict (set_resolution (FraudCase_ctor john) "escalated"
                             "Caller unsure.")).
      - intros x Hx.
        each_item Hx; left; reflexivity.
      - apply list_elem_of_here. }
    destruct Hbad as [Hbad|[Hbad|Hbad]]; discriminate Hbad.
  - intros H.
    assert (Hmove : allowed_transition "confirmed_safe" "confirmed_fraud").
    { apply (H "confirmed_fraud" "User denied transaction." resolved_ctx 0
               (asdict (set_resolution (FraudCase_ctor john) "confirmed_safe"
                          "User confirmed."))
               (asdict (set_resolution (FraudCase_ctor john) "confirmed_fraud"
                          "User denied transaction."))).
      - right. reflexivity.
      - reflexivity.
      - reflexivity. }
    destruct Hmove as [Hmove|[Hmove _]]; discriminate Hmove.
Qed.

(** C6 (amended): if every stored case status is one of pending_review,
    confirmed_safe, confirmed_fraud and [resolve_fraud_case] is called with
    confirmed_safe or confirmed_fraud, every stored status is one of the
    three afterwards.  The call leaves each record's status as it was or
    sets it to the status given, whatever the record held before;
    [lookup_customer] changes no record. *)
Theorem resolve_status_invariant (status notes' : string) (ctx : Ctx) :
  resolving_status status ->
  (forall x, x ∈ fraud_db (disk ctx) -> allowed_status (item_status x)) ->
  let db' := fraud_db (disk (snd (resolve_fraud_case status notes' ctx))) in
  (forall x, x ∈ db' -> allowed_status (item_status x)) /\
  (forall i r r', fraud_db (disk ctx) !! i = Some r -> db' !! i = Some r' ->
     item_status r' = item_status r \/ item_status r' = status) /\
  (forall name, fraud_db (disk (snd (lookup_customer name ctx))) = fraud_db (disk ctx)).
Proof.
  intros Hs Hinv db'. subst db'.
  assert (Hlookup : forall name,
             fraud_db (disk (snd (lookup_customer name ctx))) = fraud_db (disk ctx)).
  { intros name. unfold lookup_customer. destruct (next _ _); reflexivity. }
  destruct (active_case (userdata ctx)) as [case|] eqn:Hcase.
  - rewrite (resolve_with_active_case status notes' ctx case Hcase). simpl.
    split; [|split; [|exact Hlookup]].
    + intros x Hx. apply replace_first_elem in Hx as [->|Hx]; [|auto].
      unfold item_status, allowed_status. simpl.
      destruct Hs as [->| ->]; auto.
    + intros i r r' Hr Hr'.
      destruct (replace_first_lookup_cases _ _ _ _ _ _ Hr Hr') as [->| ->];
        [left|right]; reflexivity.
  - unfold resolve_fraud_case. rewrite Hcase. simpl.
    split; [exact Hinv|]. split; [|exact Hlookup].
    intros i r r' Hr Hr'. left. congruence.
Qed.

Lemma resolve_status_invariant_witness :
  resolving_status "confirmed_fraud" /\
  let db' := fraud_db (disk (snd (resolve_fraud_case "confirmed_fraud"
                                    "User denied transaction." loaded_ctx))) in
  (forall x, x ∈ db' -> allowed_status (item_status x)) /\
  (forall i r r', fraud_db (disk loaded_ctx) !! i = Some r -> db' !! i = Some r' ->
     item_status r' = item_status r \/ item_status r' = "confirmed_fraud") /\
  (forall name, fraud_db (disk (snd (lookup_customer name loaded_ctx))) =
                fraud_db (disk loaded_ctx)).
Proof.
  split; [right; reflexivity|].
  apply (resolve_status_invariant "confirmed_fraud" "User denied transaction."
           loaded_ctx).
  - right. reflexivity.
  - intros x Hx.
    each_item Hx; left; reflexivity.
Defined.

(* ===================================================================== *)
(** ** The query as [lookup_customer] normalises it *)
(* ===================================================================== *)

Lemma is_space_lower_char c : is_space (lower_char c) = is_space c.
Proof. destruct c as [[] [] [] [] [] [] [] []]; reflexivity. Qed.

Lemma lower_char_idem c : lower_char (lower_char c) = lower_char c.
Proof. destruct c as [[] [] [] [] [] [] [] []]; reflexivity. Qed.

Lemma lower_idem s : lower (lower s) = lower s.
Proof.
  induction s as [|c s IH]; simpl; [reflexivity|].
  rewrite lower_char_idem, IH. reflexivity.
Qed.

Lemma lstrip_lower s : lstrip (lower s) = lower (lstrip s).
Proof.
  induction s as [|c s IH]; simpl; [reflexivity|].
  rewrite is_space_lower_char. destruct (is_space c); [exact IH | reflexivity].
Qed.

Lemma rstrip_lower s : rstrip (lower s) = lower (rstrip s).
Proof.
  induction s as [|c s IH]; simpl; [reflexivity|].
  rewrite IH, is_space_lower_char.
  destruct (rstrip s); simpl; [destruct (is_space c)|]; reflexivity.
Qed.

Lemma strip_lower s : strip (lower s) = lower (strip s).
Proof. unfold strip. rewrite lstrip_lower, rstrip_lower. reflexivity. Qed.

Lemma lstrip_clean s : clean_start (lstrip s) = true.
Proof.
  induction s as [|c s IH]; simpl; [reflexivity|].
  destruct (is_space c) eqn:Hc; [exact IH | simpl; rewrite Hc; reflexivity].
Qed.

Lemma lstrip_of_clean s : clean_start s = true -> lstrip s = s.
Proof.
  destruct s as [|c s]; simpl; [reflexivity|].
  destruct (is_space c); [discriminate | reflexivity].
Qed.

Lemma rstrip_clean s : clean_start s = true -> clean_start (rstrip s) = true.
Proof.
  destruct s as [|c s]; simpl; [reflexivity|]. intros Hc.
  destruct (rstrip s); simpl; [|exact Hc].
  destruct (is_space c) eqn:E; simpl; [reflexivity | rewrite E; reflexivity].
Qed.

Lemma rstrip_idem s : rstrip (rstrip s) = rstrip s.
Proof.
  induction s as [|c s IH]; simpl; [reflexivity|].
  destruct (rstrip s) as [|c' s'] eqn:E.
  - destruct (is_space c) eqn:Hc; simpl; [reflexivity|]. rewrite Hc. reflexivity.
  - change (rstrip (String c (String c' s'))) with
      (match rstrip (String c' s') with
       | EmptyString => if is_space c then EmptyString else String c EmptyString
       | t' => String c t'
       end).
    rewrite IH. reflexivity.
Qed.

Lemma strip_idem s : strip (strip s) = strip s.
Proof.
  unfold strip.
  rewrite (lstrip_of_clean (rstrip (lstrip s))).
  - apply rstrip_idem.
  - apply rstrip_clean, lstrip_clean.
Qed.

(** X1: the lookup does not see the letter case of the query nor the white
    space around it: the stripped query and the lowercased query give the
    reply and the session that the query itself gives. *)
Theorem lookup_customer_normalised (name : string) (ctx : Ctx) :
  lookup_customer (strip name) ctx = lookup_customer name ctx /\
  lookup_customer (lower name) ctx = lookup_customer name ctx /\
  lookup_customer (lower (strip name)) ctx = lookup_customer name ctx.
Proof.
  unfold lookup_customer.
  rewrite strip_idem, !strip_lower, strip_idem, lower_idem. repeat split.
Qed.

(* ===================================================================== *)
(** ** Lookups and resolutions in sequence *)
(* ===================================================================== *)

Lemma found_reply_not_no_match r : found_reply r <> "NO_MATCH".
Proof. unfold found_reply. rewrite append_cons. discriminate. Qed.

Lemma Related_same_name q (a b : Item) :
  i_userName a = i_userName b -> Related q a -> Related q b.
Proof. unfold Related. intros ->. tauto. Qed.

(** X2: asking again changes nothing: a second lookup with the same name
    returns the reply and leaves the session and disk of the first. *)
Theorem lookup_customer_idempotent (name : string) (ctx : Ctx) :
  lookup_customer name (snd (lookup_customer name ctx)) = lookup_customer name ctx.
Proof.
  unfold lookup_customer, load_db.
  destruct (next _ (fraud_db (disk ctx))) as [found|] eqn:Hnext; cbn [fst snd disk].
  - rewrite Hnext. reflexivity.
  - rewrite Hnext. reflexivity.
Qed.

(** X3: the reply of a lookup depends on the store alone, and a lookup that
    finds a record replaces whatever case the session held: two sessions
    over the same disk get the same reply and, when it is not NO_MATCH, end
    in the same state. *)
Theorem lookup_customer_overrides (name : string) (ud1 ud2 : Userdata) (d : Disk) :
  let r1 := lookup_customer name {| userdata := ud1; disk := d |} in
  let r2 := lookup_customer name {| userdata := ud2; disk := d |} in
  fst r1 = fst r2 /\ (fst r1 <> "NO_MATCH" -> snd r1 = snd r2).
Proof.
  unfold lookup_customer, load_db. cbn [disk].
  destruct (next _ _); cbn [fst snd]; split; try reflexivity.
  intros H. exfalso. apply H. reflexivity.
Qed.

Lemma lookup_customer_overrides_witness :
  let r1 := lookup_customer "mary" loaded_ctx in
  let r2 := lookup_customer "mary" sample_ctx in
  fst r1 <> "NO_MATCH" /\ snd r1 = snd r2 /\
  active_case (userdata (snd r1)) = Some (FraudCase_ctor mary).
Proof.
  intros r1 r2.
  assert (Hfound : fst r1 <> "NO_MATCH") by (vm_compute; discriminate).
  split; [exact Hfound|]. split; [|reflexivity].
  exact (proj2 (lookup_customer_overrides "mary" (userdata loaded_ctx)
                  Userdata_init sample_disk) Hfound).
Defined.

(** X4: NO_MATCH is returned exactly when no stored name contains the
    stripped query or is contained in it, letter case apart. *)
Theorem lookup_no_match_iff (name : string) (ctx : Ctx) :
  fst (lookup_customer name ctx) = "NO_MATCH" <->
  forall x, x ∈ fraud_db (disk ctx) -> ~ Related (strip name) x.
Proof.
  split.
  - unfold lookup_customer, load_db.
    destruct (next _ _) as [found|] eqn:Hnext; cbn [fst].
    + intros H. exfalso. exact (found_reply_not_no_match found H).
    + intros _ x Hx. apply name_matches_false.
      clear -Hnext Hx. induction (fraud_db (disk ctx)) as [|y l IH].
      * inversion Hx.
      * simpl in Hnext. destruct (name_matches _ y) eqn:Hy; [discriminate|].
        apply elem_of_cons in Hx as [->|Hx]; [exact Hy | exact (IH Hnext Hx)].
  - intros H. rewrite lookup_customer_no_match by exact H. reflexivity.
Qed.

(** X5: a lookup that finds nothing leaves the case of an earlier lookup in
    place, so a resolution called after it acts as if the failed lookup had
    not happened. *)
Theorem failed_lookup_keeps_case (name status notes' : string) (ctx : Ctx) :
  fst (lookup_customer name ctx) = "NO_MATCH" ->
  resolve_fraud_case status notes' (snd (lookup_customer name ctx)) =
  resolve_fraud_case status notes' ctx.
Proof. intros H. rewrite (lookup_no_match_keeps_ctx name ctx H). reflexivity. Qed.

Lemma failed_lookup_keeps_case_witness :
  fst (lookup_customer "Zed" loaded_ctx) = "NO_MATCH" /\
  resolve_fraud_case "confirmed_safe" "User confirmed."
    (snd (lookup_customer "Zed" loaded_ctx)) =
  resolve_fraud_case "confirmed_safe" "User confirmed." loaded_ctx /\
  fst (resolve_fraud_case "confirmed_safe" "User confirmed." loaded_ctx) =
  "UPDATED_SAFE|Transaction marked legitimate.".
Proof.
  split; [reflexivity|]. split; [|reflexivity].
  apply (failed_lookup_keeps_case "Zed" "confirmed_safe" "User confirmed." loaded_ctx).
  reflexivity.
Defined.

Lemma unrelated_not_named q (l1 : list Item) (found : Item) :
  (forall x, x ∈ l1 -> ~ Related q x) -> Related q found ->
  forall x, x ∈ l1 -> i_userName x <> i_userName found.
Proof.
  intros Hl1 Hfound x Hx E. apply (Hl1 x Hx).
  apply (Related_same_name q found x); [symmetry; exact E | exact Hfound].
Qed.

(** X6: on a store nobody else has written in between, the record a
    resolution rewrites is the record the lookup found: the first record in
    store order related to the stripped query is replaced by the found case
    with the new status and notes, and all others stay. *)
Theorem lookup_then_resolve_same_record (name status notes' : string) (ctx : Ctx)
    (l1 : list Item) (found : Item) (l2 : list Item) :
  fraud_db (disk ctx) = l1 ++ found :: l2 ->
  (forall x, x ∈ l1 -> ~ Related (strip name) x) ->
  Related (strip name) found ->
  fraud_db (disk (snd (resolve_fraud_case status notes'
                         (snd (lookup_customer name ctx))))) =
  l1 ++ asdict (set_resolution (FraudCase_ctor found) status notes') :: l2.
Proof.
  intros Hdb Hl1 Hfound.
  rewrite (lookup_customer_found name ctx l1 found l2 Hdb Hl1 Hfound). cbn [snd].
  erewrite resolve_with_active_case by reflexivity.
  cbn [snd disk fraud_db save_db]. rewrite Hdb.
  apply replace_first_hit; [|reflexivity].
  exact (unrelated_not_named _ l1 found Hl1 Hfound).
Qed.

Lemma lookup_then_resolve_same_record_witness :
  fraud_db (disk (snd (resolve_fraud_case "confirmed_fraud" "User denied transaction."
                         (snd (lookup_customer "Mary Ann" sample_ctx))))) =
  [john] ++ asdict (set_resolution (FraudCase_ctor mary) "confirmed_fraud"
                      "User denied transaction.") :: [].
Proof.
  apply (lookup_then_resolve_same_record "Mary Ann" "confirmed_fraud"
           "User denied transaction." sample_ctx [john] mary []).
  - reflexivity.
  - intros x Hx. each_item Hx. apply name_matches_false. reflexivity.
  - apply name_matches_spec. reflexivity.
Defined.

(** X7: what a resolution writes, the next lookup reads back.  After a
    lookup that found a record and a resolution, the same lookup returns the
    same FOUND reply and makes the resolved case, with the status and notes
    just written, the active case again. *)
Theorem lookup_resolve_lookup (name status notes' : string) (ctx : Ctx) :
  fst (lookup_customer name ctx) <> "NO_MATCH" ->
  let ctx2 := snd (resolve_fraud_case status notes' (snd (lookup_customer name ctx))) in
  lookup_customer name ctx2 = (fst (lookup_customer name ctx), ctx2) /\
  exists c, active_case (userdata ctx2) = Some c /\
            case_status c = status /\ notes c = notes'.
Proof.
  intros Hfound ctx2. subst ctx2.
  assert (Hnext : exists found, next (name_matches (lower (strip name)))
                                  (fraud_db (disk ctx)) = Some found).
  { revert Hfound. unfold lookup_customer, load_db.
    destruct (next _ _) as [found|]; [eauto|].
    intros H. exfalso. apply H. reflexivity. }
  destruct Hnext as [found Hnext].
  apply next_Some in Hnext as (l1 & l2 & Hdb & Hm & Hl1).
  assert (Hun : forall x, x ∈ l1 -> ~ Related (strip name) x)
    by (intros x Hx; apply name_matches_false, Hl1, Hx).
  assert (Hrel : Related (strip name) found) by (apply name_matches_spec, Hm).
  rewrite (lookup_customer_found name ctx l1 found l2 Hdb Hun Hrel). cbn [fst snd].
  erewrite resolve_with_active_case by reflexivity.
  cbn [snd disk fraud_db save_db userdata active_case userName FraudCase_ctor].
  rewrite Hdb, (replace_first_hit _ _ l1 found l2
                  (unrelated_not_named _ l1 found Hun Hrel) eq_refl).
  split; [|eexists; repeat split].
  match goal with
  | |- lookup_customer name ?c = _ =>
      rewrite (lookup_customer_found name c l1
                 (asdict (set_resolution (FraudCase_ctor found) status notes')) l2)
  end; [reflexivity | reflexivity | exact Hun | exact Hrel].
Qed.

Lemma lookup_resolve_lookup_witness :
  let ctx2 := snd (resolve_fraud_case "confirmed_safe" "User confirmed."
                     (snd (lookup_customer "john" sample_ctx))) in
  fst (lookup_customer "john" sample_ctx) <> "NO_MATCH" /\
  lookup_customer "john" ctx2 = (fst (lookup_customer "john" sample_ctx), ctx2).
Proof.
  intros ctx2.
  assert (Hfound : fst (lookup_customer "john" sample_ctx) <> "NO_MATCH")
    by (vm_compute; discriminate).
  split; [exact Hfound|].
  exact (proj1 (lookup_resolve_lookup "john" "confirmed_safe" "User confirmed."
                  sample_ctx Hfound)).
Defined.

Lemma fraud_reply_facts x :
  let reply := "UPDATED_FRAUD|Card " +:+ x in
  startswith "UPDATED_FRAUD|" reply = true /\
  reply <> "ERROR: No case loaded." /\
  reply <> "UPDATED_SAFE|Transaction marked legitimate.".
Proof.
  split; [reflexivity|]. split; intros H.
  - rewrite append_cons in H. discriminate H.
  - apply (f_equal (startswith "UPDATED_FRAUD|")) in H. discriminate H.
Qed.

(** X8: the reply tells the three outcomes apart.  The error is returned
    exactly when no case is loaded; the fraud reply exactly when a case is
    loaded and the status is the word confirmed_fraud, and it quotes the
    card ending held by the session; every other status, whatever its
    spelling, gets the safe reply while being stored as given. *)
Theorem resolve_reply_kinds (status notes' : string) (ctx : Ctx) :
  let r := resolve_fraud_case status notes' ctx in
  (fst r = "ERROR: No case loaded." <-> active_case (userdata ctx) = None) /\
  (startswith "UPDATED_FRAUD|" (fst r) = true <->
   is_Some (active_case (userdata ctx)) /\ status = "confirmed_fraud") /\
  (fst r = "UPDATED_SAFE|Transaction marked legitimate." <->
   is_Some (active_case (userdata ctx)) /\ status <> "confirmed_fraud") /\
  (forall c, active_case (userdata ctx) = Some c ->
     (status = "confirmed_fraud" ->
      fst r = "UPDATED_FRAUD|Card " +:+ cardEnding c +:+ " has been blocked.") /\
     (exists c', active_case (userdata (snd r)) = Some c' /\ case_status c' = status)).
Proof.
  unfold resolve_fraud_case, resolve_reply.
  destruct (active_case (userdata ctx)) as [c|]; cbn [fst snd].
  - destruct (String.eqb_spec status "confirmed_fraud") as [E|NE];
      cbn [cardEnding set_resolution userdata active_case].
    + destruct (fraud_reply_facts (cardEnding c +:+ " has been blocked."))
        as (Hpre & Herr & Hsafe).
      split; [split; [intros H; contradiction | discriminate]|].
      split; [split; [intros _; split; [eexists; reflexivity | exact E]
                     | intros _; exact Hpre]|].
      split; [split; [intros H; contradiction | intros [_ H]; contradiction]|].
      intros k [= <-]. split; [reflexivity|].
      eexists. split; reflexivity.
    + split; [split; discriminate|].
      split; [split; [discriminate | intros [_ H]; contradiction]|].
      split; [split; [intros _; split; [eexists; reflexivity | exact NE]
                     | reflexivity]|].
      intros k [= <-]. split; [intros H; contradiction|].
      eexists. split; reflexivity.
  - split; [split; reflexivity|].
    split; [split; [discriminate | intros [[k H] _]; discriminate H]|].
    split; [split; [discriminate | intros [[k H] _]; discriminate H]|].
    intros k H. discriminate H.
Qed.

Lemma resolve_reply_kinds_witness :
  active_case (userdata loaded_ctx) = Some (FraudCase_ctor john) /\
  fst (resolve_fraud_case "confirmed_fraud" "User denied transaction." loaded_ctx) =
  "UPDATED_FRAUD|Card " +:+ cardEnding (FraudCase_ctor john) +:+ " has been blocked.".
Proof.
  split; [reflexivity|].
  destruct (resolve_reply_kinds "confirmed_fraud" "User denied transaction." loaded_ctx)
    as (_ & _ & _ & Hcase).
  destruct (Hcase (FraudCase_ctor john) eq_refl) as [Hfraud _].
  exact (Hfraud eq_refl).
Defined.

(** X9: a [FraudCase] survives the trip through [asdict] and the
    constructor unchanged, and an object of the store survives the trip the
    other way exactly when it spells out both defaulted keys; otherwise the
    defaults are written in, once and for all. *)
Theorem asdict_round_trip :
  (forall c, FraudCase_ctor (asdict c) = c) /\
  (forall item, asdict (FraudCase_ctor item) = item <->
                is_Some (i_case_status item) /\ is_Some (i_notes item)) /\
  (forall item, FraudCase_ctor (asdict (FraudCase_ctor item)) = FraudCase_ctor item).
Proof.
  split; [intros []; reflexivity|]. split; [|intros []; reflexivity].
  intros [n s c tn ta tt ts [st|] [nt|]]; unfold asdict, FraudCase_ctor; simpl;
    split; try (intros [[? H1] [? H2]]; discriminate); try discriminate.
  - intros _. split; eexists; reflexivity.
  - reflexivity.
Qed.

(* ===================================================================== *)
(** ** Two sessions, one after the other *)
(* ===================================================================== *)

Lemma resolved_disk_db c status notes' d :
  fraud_db (resolved_disk c status notes' d) =
  replace_first (userName c) (asdict (set_resolution c status notes')) (fraud_db d).
Proof.
  unfold resolved_disk. erewrite resolve_with_active_case by reflexivity.
  reflexivity.
Qed.


(** X10: when two sessions hold cases of the same [userName] and resolve
    one after the other, the later call decides: the store ends as if the
    earlier call had not been made, its status and notes gone. *)
Theorem resolve_last_writer_wins (a b : FraudCase) (sa na sb nb : string) (d : Disk) :
  userName a = userName b ->
  fraud_db (resolved_disk b sb nb (resolved_disk a sa na d)) =
  fraud_db (resolved_disk b sb nb d).
Proof.
  intros Hname. rewrite !resolved_disk_db, <- Hname.
  apply replace_first_twice. reflexivity.
Qed.

Lemma resolve_last_writer_wins_witness :
  fraud_db (resolved_disk (FraudCase_ctor john_reissued) "confirmed_fraud"
              "User denied transaction."
              (resolved_disk (FraudCase_ctor john) "confirmed_safe"
                 "User confirmed." sample_disk)) =
  fraud_db (resolved_disk (FraudCase_ctor john_reissued) "confirmed_fraud"
              "User denied transaction." sample_disk).
Proof.
  apply (resolve_last_writer_wins (FraudCase_ctor john) (FraudCase_ctor john_reissued)).
  reflexivity.
Defined.



(* ===================================================================== *)
(** ** Runs of several sessions over the one store *)
(* ===================================================================== *)

Lemma run_cons sid c rest w :
  run ((sid, c) :: rest) w =
  (fst (step sid c w) :: fst (run rest (snd (step sid c w))),
   snd (run rest (snd (step sid c w)))).
Proof. reflexivity. Qed.

Lemma replace_first_names name new (l : list Item) :
  i_userName new = name ->
  i_userName <$> replace_first name new l = i_userName <$> l.
Proof.
  intros Hnew. induction l as [|x l IH]; simpl; [reflexivity|].
  destruct (String.eqb_spec (i_userName x) name) as [E|_]; csimpl.
  - rewrite Hnew, E. reflexivity.
  - rewrite IH. reflexivity.
Qed.

Lemma call_tool_names c ctx :
  i_userName <$> fraud_db (disk (snd (call_tool c ctx))) =
  i_userName <$> fraud_db (disk ctx).
Proof.
  destruct c as [name|status notes']; simpl.
  - unfold lookup_customer. destruct (next _ _); reflexivity.
  - destruct (active_case (userdata ctx)) as [k|] eqn:Hk.
    + rewrite (resolve_with_active_case status notes' ctx k Hk). simpl.
      apply replace_first_names. reflexivity.
    + unfold resolve_fraud_case. rewrite Hk. reflexivity.
Qed.

(** X12: whatever the sessions call and in whatever order, the store keeps
    its records in place: the list of [userName]s, and with it the number of
    records, after a run is the one before it.  No tool adds, removes,
    renames or reorders a record. *)
Theorem run_keeps_names (trace : list (nat * Call)) (w : World) :
  i_userName <$> fraud_db (shared (snd (run trace w))) =
  i_userName <$> fraud_db (shared w).
Proof.
  revert w. induction trace as [|[sid c] rest IH]; intros w; [reflexivity|].
  rewrite run_cons. cbn [snd]. rewrite IH. unfold step. cbn [snd shared].
  apply call_tool_names.
Qed.

Lemma call_tool_dumps c ctx :
  (is_update_reply (fst (call_tool c ctx)) = true /\
   dumps (disk (snd (call_tool c ctx))) =
   fraud_db (disk (snd (call_tool c ctx))) :: dumps (disk ctx)) \/
  (is_update_reply (fst (call_tool c ctx)) = false /\
   disk (snd (call_tool c ctx)) = disk ctx).
Proof.
  destruct c as [name|status notes']; simpl.
  - right. unfold lookup_customer. destruct (next _ _); split; reflexivity.
  - destruct (active_case (userdata ctx)) as [k|] eqn:Hk.
    + left. rewrite (resolve_with_active_case status notes' ctx k Hk). simpl.
      split; [apply resolve_reply_is_update | reflexivity].
    + right. unfold resolve_fraud_case. rewrite Hk. split; reflexivity.
Qed.

Lemma count_updates_cons r rs :
  count_updates (r :: rs) =
  (if is_update_reply r then 1 else 0) + count_updates rs.
Proof. unfold count_updates. simpl. destruct (is_update_reply r); reflexivity. Qed.

(** X13: the store is written once for each reply that reports an update
    and never otherwise.  Over a run, the log of [save_db] payloads grows at
    its newest end by as many entries as there are update replies, and the
    store content is the newest payload of the run, or the content before
    the run when the run wrote nothing. *)
Theorem run_write_log (trace : list (nat * Call)) (w : World) :
  exists new,
    dumps (shared (snd (run trace w))) = new ++ dumps (shared w) /\
    length new = count_updates (fst (run trace w)) /\
    fraud_db (shared (snd (run trace w))) = default (fraud_db (shared w)) (head new).
Proof.
  revert w. induction trace as [|[sid c] rest IH]; intros w.
  - exists []. repeat split.
  - rewrite run_cons. cbn [fst snd]. rewrite count_updates_cons.
    destruct (IH (snd (step sid c w))) as (new & Hlog & Hlen & Hdb).
    unfold step in *. cbn [fst snd shared] in *.
    set (ctx := {| userdata := session_of w sid; disk := shared w |}) in *.
    destruct (call_tool_dumps c ctx) as [[Hup Hd]|[Hup Hd]]; rewrite Hup.
    + exists (new ++ [fraud_db (disk (snd (call_tool c ctx)))]).
      rewrite Hlog, Hd, <- app_assoc. split; [reflexivity|].
      split; [rewrite length_app, Hlen; simpl; lia|].
      rewrite Hdb. destruct new; reflexivity.
    + exists new. split; [rewrite Hlog, Hd; reflexivity|].
      split; [exact Hlen|].
      rewrite Hdb, Hd. reflexivity.
Qed.

Lemma same_other_fields_sym a b : same_other_fields a b -> same_other_fields b a.
Proof. unfold same_other_fields. intuition congruence. Qed.

Lemma same_other_fields_trans a b c :
  same_other_fields a b -> same_other_fields b c -> same_other_fields a c.
Proof. unfold same_other_fields. intuition congruence. Qed.

Lemma same_other_fields_names (l' l : list Item) (P : string -> Prop) :
  Forall2 same_other_fields l' l ->
  (forall x, x ∈ l -> P (i_userName x)) ->
  forall x, x ∈ l' -> P (i_userName x).
Proof.
  induction 1 as [|x' x l' l Hx _ IH]; intros HP y Hy; [inversion Hy|].
  apply elem_of_cons in Hy as [->|Hy].
  - destruct Hx as [-> _]. apply HP, list_elem_of_here.
  - apply IH; [|exact Hy]. intros z Hz. apply HP, list_elem_of_further, Hz.
Qed.

Lemma agrees_proper c (db' db : list Item) :
  Forall2 same_other_fields db' db -> agrees c db -> agrees c db'.
Proof.
  intros HF (l1 & r & l2 & -> & Hl1 & Hr).
  apply Forall2_app_inv_r in HF as (l1' & k & HF1 & HF2 & ->).
  apply Forall2_cons_inv_r in HF2 as (r' & l2' & Hr' & _ & ->).
  exists l1', r', l2'. split; [reflexivity|]. split.
  - exact (same_other_fields_names l1' l1 (fun n => n <> userName c) HF1 Hl1).
  - apply (same_other_fields_trans _ r); [exact Hr | apply same_other_fields_sym, Hr'].
Qed.

Lemma replace_first_frame c new (db : list Item) :
  agrees c db -> same_other_fields new (asdict c) ->
  Forall2 same_other_fields (replace_first (userName c) new db) db.
Proof.
  intros (l1 & r & l2 & -> & Hl1 & Hr) Hnew.
  rewrite replace_first_hit; [|exact Hl1|destruct Hr as [Hn _]; symmetry; exact Hn].
  apply Forall2_app; [apply same_other_fields_all|].
  constructor; [|apply same_other_fields_all].
  exact (same_other_fields_trans _ _ _ Hnew Hr).
Qed.

Lemma lookup_agrees q (db : list Item) found :
  next (name_matches q) db = Some found -> agrees (FraudCase_ctor found) db.
Proof.
  intros H. apply next_Some in H as (l1 & l2 & -> & Hm & Hl1).
  exists l1, found, l2. split; [reflexivity|]. split; [|repeat split].
  intros x Hx E. apply Hl1 in Hx.
  rewrite (name_matches_same_name q x found E) in Hx. congruence.
Qed.

Lemma call_tool_frame c ctx :
  (forall k, active_case (userdata ctx) = Some k -> agrees k (fraud_db (disk ctx))) ->
  Forall2 same_other_fields (fraud_db (disk (snd (call_tool c ctx))))
    (fraud_db (disk ctx)) /\
  (forall k, active_case (userdata (snd (call_tool c ctx))) = Some k ->
             agrees k (fraud_db (disk (snd (call_tool c ctx))))).
Proof.
  intros Hagree. destruct c as [name|status notes']; simpl.
  - unfold lookup_customer, load_db.
    destruct (next _ _) as [found|] eqn:Hnext; cbn [snd disk userdata active_case].
    + split; [apply same_other_fields_all|].
      intros k [= <-]. exact (lookup_agrees _ _ _ Hnext).
    + split; [apply same_other_fields_all | exact Hagree].
  - destruct (active_case (userdata ctx)) as [k|] eqn:Hk.
    + rewrite (resolve_with_active_case status notes' ctx k Hk).
      cbn [snd disk fraud_db save_db userdata active_case].
      assert (HF : Forall2 same_other_fields
                     (replace_first (userName k)
                        (asdict (set_resolution k status notes'))
                        (fraud_db (disk ctx)))
                     (fraud_db (disk ctx))).
      { apply replace_first_frame; [apply Hagree; reflexivity | repeat split]. }
      split; [exact HF|].
      intros k' [= <-]. apply (agrees_proper _ _ _ HF).
      exact (Hagree k eq_refl).
    + unfold resolve_fraud_case. rewrite Hk. cbn [snd].
      split; [apply same_other_fields_all|]. rewrite Hk. intros k H. discriminate H.
Qed.

Lemma session_of_lookup w sid k :
  active_case (session_of w sid) = Some k ->
  exists ud, sessions w !! sid = Some ud /\ active_case ud = Some k.
Proof.
  unfold session_of. destruct (sessions w !! sid) as [ud|]; simpl; [eauto|discriminate].
Qed.

Lemma step_frame sid c w :
  sessions_agree w ->
  Forall2 same_other_fields (fraud_db (shared (snd (step sid c w))))
    (fraud_db (shared w)) /\
  sessions_agree (snd (step sid c w)).
Proof.
  intros Hw. unfold step. cbn [snd shared].
  set (ctx := {| userdata := session_of w sid; disk := shared w |}).
  destruct (call_tool_frame c ctx) as [HF Hk].
  { intros k Hk. apply session_of_lookup in Hk as (ud & Hud & Hc).
    exact (Hw sid ud k Hud Hc). }
  split; [exact HF|].
  intros sid' ud k Hud Hc. cbn [sessions shared] in *.
  destruct (decide (sid = sid')) as [<-|Hne].
  - rewrite lookup_insert_eq in Hud. injection Hud as <-. exact (Hk k Hc).
  - rewrite lookup_insert_ne in Hud by exact Hne.
    apply (agrees_proper _ _ _ HF). exact (Hw sid' ud k Hud Hc).
Qed.

Lemma run_frame_from (trace : list (nat * Call)) (w : World) :
  sessions_agree w ->
  Forall2 same_other_fields (fraud_db (shared (snd (run trace w))))
    (fraud_db (shared w)) /\
  sessions_agree (snd (run trace w)).
Proof.
  revert w. induction trace as [|[sid c] rest IH]; intros w Hw.
  - split; [apply same_other_fields_all | exact Hw].
  - rewrite run_cons. cbn [snd].
    destruct (step_frame sid c w Hw) as [HF1 Hw1].
    destruct (IH _ Hw1) as [HF2 Hw2]. split; [|exact Hw2].
    exact (Forall2_trans _ _ _ _ _ _ same_other_fields_trans HF2 HF1).
Qed.

(** X14: as long as the store file is written by the tools alone, a record
    changes in its status and notes only.  Starting with sessions that hold
    no case, after any calls of any sessions in any order every record has
    the [userName], security identifier, card ending and transaction name,
    amount, time and source it had at the start. *)
Theorem run_frame (trace : list (nat * Call)) (d : Disk) :
  Forall2 same_other_fields
    (fraud_db (shared (snd (run trace (fresh_world d))))) (fraud_db d).
Proof.
  apply (run_frame_from trace (fresh_world d)).
  intros sid ud k Hud. unfold fresh_world in Hud. cbn [sessions] in Hud.
  rewrite lookup_empty in Hud. discriminate Hud.
Qed.

(* ===================================================================== *)
(** ** The active case of a session over a run *)
(* ===================================================================== *)

Lemma step_session_same sid c w :
  session_of (snd (step sid c w)) sid =
  userdata (snd (call_tool c {| userdata := session_of w sid; disk := shared w |})).
Proof.
  unfold step, session_of at 1. cbn [snd sessions].
  rewrite lookup_insert_eq. reflexivity.
Qed.

Lemma step_session_other sid sid' c w :
  sid <> sid' -> session_of (snd (step sid c w)) sid' = session_of w sid'.
Proof.
  intros Hne. unfold step, session_of. cbn [snd sessions].
  rewrite lookup_insert_ne by exact Hne. reflexivity.
Qed.

Lemma call_tool_keeps_active c ctx :
  is_Some (active_case (userdata ctx)) ->
  is_Some (active_case (userdata (snd (call_tool c ctx)))).
Proof.
  intros [k Hk]. destruct c as [name|status notes']; simpl.
  - unfold lookup_customer. destruct (next _ _); cbn [snd userdata active_case]; eauto.
  - rewrite (resolve_with_active_case status notes' ctx k Hk). simpl. eauto.
Qed.


(** X15: no tool call takes a session's case away.  Once a session has an
    active case it has one after any further calls, its own or those of
    other sessions; only a lookup that finds a record can put another case
    in its place. *)
Theorem run_keeps_active_case (trace : list (nat * Call)) (w : World) (sid : nat) :
  is_Some (active_case (session_of w sid)) ->
  is_Some (active_case (session_of (snd (run trace w)) sid)).
Proof.
  revert w. induction trace as [|[sid0 c] rest IH]; intros w Hw; [exact Hw|].
  rewrite run_cons. cbn [snd]. apply IH.
  destruct (decide (sid0 = sid)) as [->|Hne].
  - rewrite step_session_same. apply call_tool_keeps_active. exact Hw.
  - rewrite step_session_other by exact Hne. exact Hw.
Qed.

Lemma run_keeps_active_case_witness :
  let w := snd (run [(1, Lookup "john")] (fresh_world sample_disk)) in
  is_Some (active_case (session_of w 1)) /\
  is_Some (active_case (session_of (snd (run (tail sample_trace) w)) 1)).
Proof.
  intros w.
  assert (Hw : is_Some (active_case (session_of w 1))) by (eexists; reflexivity).
  split; [exact Hw|].
  exact (run_keeps_active_case (tail sample_trace) w 1 Hw).
Defined.





